(** * The average-word-length mapper

    A shallow embedding of
    [averagewordlength/python_sample_solution/mapper.py]:

<<
    NONALPHA = re.compile("\W")

    for input in sys.stdin.readlines():
      for w in NONALPHA.split(input):
        if len(w) > 0:
          print w[0].lower() + '\t' + str(len(w))
>>

    The script is Python 2: the strings are byte strings, modelled as
    [string] (a list of [ascii] bytes).  Without the LOCALE or UNICODE
    flag the class [\W] of a byte pattern is the complement of
    [[a-zA-Z0-9_]].  [w[0]] may raise [IndexError], so the loops live in a
    small error monad; standard output is threaded through them as the list
    of the lines printed so far. *)

From Stdlib Require Import Bool Arith Lia List Ascii String DecimalString
  DecimalNat.
From Equations Require Import Equations.
Import ListNotations.

Local Open Scope string_scope.
Local Open Scope list_scope.
Local Open Scope nat_scope.

(** ** Bytes and character classes *)

Module Chars.

Definition TAB : ascii := ascii_of_nat 9.
Definition LF : ascii := ascii_of_nat 10.

Definition between (lo hi : nat) (c : ascii) : bool :=
  (lo <=? nat_of_ascii c) && (nat_of_ascii c <=? hi).

Definition is_digit (c : ascii) : bool := between 48 57 c.
Definition is_upper (c : ascii) : bool := between 65 90 c.
Definition is_lower (c : ascii) : bool := between 97 122 c.
Definition is_underscore (c : ascii) : bool := nat_of_ascii c =? 95.

(** [\w] of a byte pattern: [[a-zA-Z0-9_]]. *)
Definition is_word (c : ascii) : bool :=
  is_lower c || is_upper c || is_digit c || is_underscore c.

(** [NONALPHA = re.compile("\W")]: the pattern matches exactly one byte,
    any byte outside the word class. *)
Definition NONALPHA (c : ascii) : bool := negb (is_word c).

(** [str.lower] on one byte (C locale): [A-Z] is shifted onto [a-z], every
    other byte is returned as it is. *)
Definition lower (c : ascii) : ascii :=
  if is_upper c then ascii_of_nat (nat_of_ascii c + 32) else c.

(** The lowercased image of the word class. *)
Definition is_key (c : ascii) : bool :=
  is_lower c || is_digit c || is_underscore c.

End Chars.
Export Chars.

(** ** The Python primitives the script calls *)

Module Py.

(** Exceptions the script can raise. *)
Inductive exn : Type := IndexError.

Inductive result (A : Type) : Type :=
| Ok (a : A)
| Raise (e : exn).
Arguments Ok {A} a.
Arguments Raise {A} e.

Definition bind {A B : Type} (m : result A) (k : A -> result B) : result B :=
  match m with
  | Ok a => k a
  | Raise e => Raise e
  end.

Notation "x <- m ;; k" := (bind m (fun x => k))
  (at level 61, m at next level, right associativity).

(** [s[0]] as a one-byte string; [IndexError] on the empty string. *)
Definition index0 (s : string) : result string :=
  match s with
  | EmptyString => Raise IndexError
  | String c _ => Ok (String c EmptyString)
  end.

(** [s.lower()]: byte-wise. *)
Fixpoint lower_str (s : string) : string :=
  match s with
  | EmptyString => EmptyString
  | String c s' => String (lower c) (lower_str s')
  end.

(** [str(n)] for a non-negative int: its decimal digits. *)
Definition str (n : nat) : string := NilEmpty.string_of_uint (Nat.to_uint n).

(** [pattern.split(s)] for a pattern [p] that matches exactly one byte:
    the string is cut at every matching byte, the matched bytes are
    dropped, and the pieces between them are returned, empty ones
    included (one piece more than there are matches). *)
Fixpoint re_split (p : ascii -> bool) (s : string) : list string :=
  match s with
  | EmptyString => [EmptyString]
  | String c s' =>
      if p c then EmptyString :: re_split p s'
      else match re_split p s' with
           | [] => [String c EmptyString]
           | w :: ws => String c w :: ws
           end
  end.

(** [f.readlines()]: the stream is cut after every line feed; each line
    keeps its line feed, the last line may lack one, and the empty stream
    has no line. *)
Fixpoint readlines (s : string) : list string :=
  match s with
  | EmptyString => []
  | String c s' =>
      if Ascii.eqb c LF then String c EmptyString :: readlines s'
      else match readlines s' with
           | [] => [String c EmptyString]
           | l :: ls => String c l :: ls
           end
  end.

End Py.
Export Py.

(** ** The script *)

Module Mapper.

(** Standard output: the lines printed so far, oldest first.  [print]
    writes its argument followed by a line feed. *)
Definition stdout : Type := list string.

Definition print (line : string) (out : stdout) : stdout := out ++ [line].

(** [w[0].lower() + '\t' + str(len(w))] *)
Definition emitted (w : string) : result string :=
  c <- index0 w ;;
  Ok (lower_str c ++ String TAB EmptyString ++ str (length w))%string.

(** The body of the inner loop, for one [w]. *)
Definition body (w : string) (out : stdout) : result stdout :=
  if 0 <? length w then
    line <- emitted w ;;
    Ok (print line out)
  else Ok out.

(** [for w in NONALPHA.split(input): ...] *)
Fixpoint for_w (ws : list string) (out : stdout) : result stdout :=
  match ws with
  | [] => Ok out
  | w :: ws' => out' <- body w out ;; for_w ws' out'
  end.

(** [for input in sys.stdin.readlines(): ...] *)
Fixpoint for_input (lines : list string) (out : stdout) : result stdout :=
  match lines with
  | [] => Ok out
  | input :: lines' =>
      out' <- for_w (re_split NONALPHA input) out ;;
      for_input lines' out'
  end.

(** What one input line adds to an empty standard output. *)
Definition mapper_line (input : string) : result stdout :=
  for_w (re_split NONALPHA input) [].

(** The bytes written: every printed line followed by a line feed. *)
Fixpoint render (out : stdout) : string :=
  match out with
  | [] => EmptyString
  | line :: out' => (line ++ String LF (render out'))%string
  end.

(** The whole script, from the contents of standard input to the contents
    of standard output. *)
Definition mapper (stdin : string) : result string :=
  out <- for_input (readlines stdin) [] ;;
  Ok (render out).

End Mapper.
Export Mapper.

(** ** Records *)

(** An emitted record: the key byte and the value. *)
Definition record : Type := (ascii * nat)%type.

(** The output line of a record: [<key><TAB><value>]. *)
Definition format (r : record) : string :=
  String (fst r) (String TAB (str (snd r))).

(** The record of a token: the lowercase form of its first byte and its
    length; no record for the empty token. *)
Definition record_of (w : string) : option record :=
  match w with
  | EmptyString => None
  | String c _ => Some (lower c, length w)
  end.

Definition nonempty (w : string) : bool := 0 <? length w.

(** What the loop body prints for one [w]. *)
Definition line_of (w : string) : list string :=
  match record_of w with
  | Some r => [format r]
  | None => []
  end.

(** Every byte of [s] satisfies [f]. *)
Fixpoint all_chars (f : ascii -> bool) (s : string) : bool :=
  match s with
  | EmptyString => true
  | String c s' => f c && all_chars f s'
  end.

(** The longest prefix whose bytes satisfy [f], and what follows it. *)
Fixpoint take_while (f : ascii -> bool) (s : string) : string :=
  match s with
  | EmptyString => EmptyString
  | String c s' => if f c then String c (take_while f s') else EmptyString
  end.

Fixpoint drop_while (f : ascii -> bool) (s : string) : string :=
  match s with
  | EmptyString => EmptyString
  | String c s' => if f c then drop_while f s' else s
  end.

(** ** The tokens as the specification words them

    Section 4.1, step 1: a split point is every maximal run of one or more
    delimiter bytes; the runs are discarded and give no empty or separator
    token; what is left between them are the tokens, the maximal runs of
    word bytes, from left to right. *)

Equations word_runs (s : string) : list string by wf (length s) lt :=
  word_runs EmptyString := [];
  word_runs (String c s') with is_word c := {
    | true => String c (take_while is_word s')
                :: word_runs (drop_while is_word s');
    | false => word_runs (drop_while NONALPHA s') }.
Next Obligation.
  apply Nat.lt_succ_r. clear. induction s' as [|d s IH]; simpl; [lia|].
  destruct (is_word d); simpl; lia.
Qed.
Next Obligation.
  apply Nat.lt_succ_r. clear. induction s' as [|d s IH]; simpl; [lia|].
  destruct (NONALPHA d); simpl; lia.
Qed.

(** [p] matches no byte of [s]. *)
Definition free (p : ascii -> bool) (s : string) : bool :=
  all_chars (fun c => negb (p c)) s.

(** The number of bytes of [s] that [p] matches. *)
Fixpoint count_matches (p : ascii -> bool) (s : string) : nat :=
  match s with
  | EmptyString => 0
  | String c s' => (if p c then 1 else 0) + count_matches p s'
  end.

(** [re_split] with every piece paired with the matched byte that ended
    it, and the inverse operation: putting the bytes back. *)
Fixpoint pieces_of (p : ascii -> bool) (s : string)
  : list (string * option ascii) :=
  match s with
  | EmptyString => [(EmptyString, None)]
  | String c s' =>
      if p c then (EmptyString, Some c) :: pieces_of p s'
      else match pieces_of p s' with
           | [] => [(String c EmptyString, None)]
           | (w, d) :: ws => (String c w, d) :: ws
           end
  end.

Fixpoint unsplit (ws : list (string * option ascii)) : string :=
  match ws with
  | [] => EmptyString
  | (w, d) :: ws' =>
      (w ++ match d with
            | Some c => String c (unsplit ws')
            | None => unsplit ws'
            end)%string
  end.

(** [line] is the output line of the record of the non-empty token [T]:
    key the lowercase form of the first byte of [T], value the length of
    [T]. *)
Definition emits (T line : string) : Prop :=
  exists c rest, T = String c rest /\ line = format (lower c, length T).

(** The other reading of section 4.1, step 1, as a regular-expression
    split at [\W+] would do it: the pieces between the delimiter runs, with
    an empty piece in front of a run that starts the line and behind a run
    that ends it.  Step 2 of the specification drops those. *)
Equations split_on_runs (s : string) : list string by wf (length s) lt :=
  split_on_runs EmptyString := [EmptyString];
  split_on_runs (String c s') with is_word c := {
    | true =>
        String c (take_while is_word s')
          :: match drop_while is_word s' with
             | EmptyString => []
             | String _ _ =>
                 split_on_runs (drop_while NONALPHA (drop_while is_word s'))
             end;
    | false => EmptyString :: split_on_runs (drop_while NONALPHA s') }.
Next Obligation.
  apply Nat.lt_succ_r.
  assert (D : forall f t, length (drop_while f t) <= length t).
  { clear. intros f t. induction t as [|d t IH]; simpl; [lia|].
    destruct (f d); simpl; lia. }
  pose proof (D is_word s') as H1.
  pose proof (D NONALPHA (drop_while is_word s')) as H2. lia.
Qed.
Next Obligation.
  apply Nat.lt_succ_r. clear. induction s' as [|d s IH]; simpl; [lia|].
  destruct (NONALPHA d); simpl; lia.
Qed.

(** The maximal runs of word bytes of a string, declaratively: the string
    is a delimiter run [d], then a non-empty run [t] of word bytes that
    ends at the end of the string or in front of a delimiter, then the
    rest. *)
Inductive Runs : string -> list string -> Prop :=
| Runs_nil (d : string) :
    all_chars NONALPHA d = true -> Runs d []
| Runs_cons (d t r : string) (ts : list string) :
    all_chars NONALPHA d = true ->
    nonempty t = true ->
    all_chars is_word t = true ->
    all_chars NONALPHA (substring 0 1 r) = true ->
    Runs r ts ->
    Runs (d ++ t ++ r) (t :: ts).

(** An output line that is [<key><TAB><value>]: the key one byte from the
    lowercase letters, the digits and the underscore (the lowercased image
    of the word class, so it is its own lowercase form), the value the
    decimal digits of a natural number, and no line feed inside. *)
Definition well_formed (line : string) : Prop :=
  exists k n,
    line = String k (String TAB (str n)) /\
    is_key k = true /\
    is_upper k = false /\ lower k = k /\
    all_chars (fun c => negb (Ascii.eqb c LF)) line = true.

(** An output line whose key is a lowercase letter, [a] to [z]. *)
Definition letter_keyed (line : string) : Prop :=
  exists k n, line = String k (String TAB (str n)) /\ is_lower k = true.

(** A record with a key from the lowercased word class and a positive
    value. *)
Definition proper_record (line : string) : Prop :=
  exists k n, line = format (k, n) /\ 1 <= n /\ is_key k = true.

(** ** Records of a whole run *)

(** The records of a list of pieces, in order: one for every non-empty
    piece. *)
Definition records (ws : list string) : list record :=
  flat_map (fun w => match record_of w with
                     | Some r => [r]
                     | None => []
                     end) ws.

(** A byte other than the line feed. *)
Definition not_lf (c : ascii) : bool := negb (Ascii.eqb c LF).

(** ** The definitions on small inputs *)

Example classes :
  map is_word ["a"; "Z"; "_"; "0"; " "; ","; "-"; LF; TAB]%char
    = [true; true; true; true; false; false; false; false; false] /\
  map lower ["H"; "h"; "Z"; "7"; "_"; "["; "@"]%char
    = ["h"; "h"; "z"; "7"; "_"; "["; "@"]%char /\
  map str [0; 5; 10; 123] = ["0"; "5"; "10"; "123"].
Proof. repeat split. Qed.

Example split_hello :
  re_split NONALPHA "Hello, World!" = ["Hello"; ""; "World"; ""] /\
  re_split NONALPHA "" = [""] /\
  re_split NONALPHA "   " = [""; ""; ""; ""].
Proof. repeat split. Qed.

Example readlines_go :
  readlines (String "G" (String "o" (String LF "Stop")))
    = [String "G" (String "o" (String LF "")); "Stop"] /\
  readlines (String "a" (String LF (String LF "")))
    = [String "a" (String LF ""); String LF ""] /\
  readlines "" = [].
Proof. repeat split. Qed.

Example mapper_hello :
  mapper_line "Hello, World!"
    = Ok [format ("h"%char, 5); format ("w"%char, 5)].
Proof. reflexivity. Qed.

Example mapper_go :
  mapper (String "G" (String "o" (String " " (String "G" (String "o"
            (String LF "Stop"))))))
    = Ok (render [format ("g"%char, 2); format ("g"%char, 2);
                  format ("s"%char, 4)]).
Proof. reflexivity. Qed.

Example word_runs_hello :
  word_runs "  Hello, World!" = ["Hello"; "World"] /\
  split_on_runs "  Hello, World!" = [""; "Hello"; "World"; ""] /\
  split_on_runs "a1_b 22" = ["a1_b"; "22"].
Proof. repeat split. Qed.

(** ** Strings *)

Lemma append_empty_r (s : string) : (s ++ "")%string = s.
Proof. induction s as [|c s IH]; simpl; congruence. Qed.

Lemma append_assoc (s t u : string) :
  ((s ++ t) ++ u)%string = (s ++ (t ++ u))%string.
Proof. induction s as [|c s IH]; simpl; congruence. Qed.

Lemma drop_while_length (f : ascii -> bool) (s : string) :
  length (drop_while f s) <= length s.
Proof.
  induction s as [|c s IH]; simpl; [lia|].
  destruct (f c); simpl; lia.
Qed.

Lemma take_drop_while (f : ascii -> bool) (s : string) :
  (take_while f s ++ drop_while f s)%string = s.
Proof.
  induction s as [|c s IH]; simpl; [reflexivity|].
  destruct (f c); simpl; congruence.
Qed.

Lemma take_while_all (f : ascii -> bool) (s : string) :
  all_chars f (take_while f s) = true.
Proof.
  induction s as [|c s IH]; simpl; [reflexivity|].
  destruct (f c) eqn:E; simpl; [rewrite E|]; auto.
Qed.

Lemma all_chars_append (f : ascii -> bool) (s t : string) :
  all_chars f (s ++ t) = all_chars f s && all_chars f t.
Proof.
  induction s as [|c s IH]; simpl; [reflexivity|].
  rewrite IH. apply andb_assoc.
Qed.

(** ** The split *)

Section Split.

Variable p : ascii -> bool.

Lemma re_split_nonnil (s : string) : re_split p s <> [].
Proof.
  induction s as [|c s IH]; simpl; [discriminate|].
  destruct (p c); [discriminate|].
  destruct (re_split p s); discriminate.
Qed.

(** A match-free prefix stays in front of the first piece. *)
Lemma re_split_prefix (t s : string) :
  free p t = true ->
  re_split p (t ++ s) =
    (t ++ hd EmptyString (re_split p s))%string :: tl (re_split p s).
Proof.
  induction t as [|c t IH]; simpl; intros Ht.
  - pose proof (re_split_nonnil s).
    destruct (re_split p s); [contradiction|reflexivity].
  - apply andb_prop in Ht as [Hc Ht].
    apply negb_true_iff in Hc. rewrite Hc, (IH Ht). reflexivity.
Qed.

Lemma re_split_free (t : string) : free p t = true -> re_split p t = [t].
Proof.
  intros Ht. rewrite <- (append_empty_r t) at 1.
  rewrite (re_split_prefix t "" Ht). simpl.
  now rewrite append_empty_r.
Qed.

(** The pieces contain no matching byte. *)
Lemma re_split_pieces_free (s : string) :
  Forall (fun w => free p w = true) (re_split p s).
Proof.
  induction s as [|c s IH]; simpl.
  - repeat constructor.
  - destruct (p c) eqn:Hc.
    + constructor; [reflexivity|exact IH].
    + pose proof (re_split_nonnil s) as Hn.
      destruct (re_split p s) as [|w ws]; [contradiction|].
      inversion IH as [|? ? Hw Hws]; subst. constructor; [|assumption].
      unfold free in *. simpl. now rewrite Hc.
Qed.

(** One piece more than there are matches. *)
Lemma re_split_length (s : string) :
  List.length (re_split p s) = S (count_matches p s).
Proof.
  induction s as [|c s IH]; simpl; [reflexivity|].
  destruct (p c); simpl; [now rewrite IH|].
  destruct (re_split p s); simpl in *; congruence.
Qed.

(** Putting the matched bytes back between the pieces gives the string:
    the split loses nothing else. *)
Lemma pieces_of_split (s : string) : map fst (pieces_of p s) = re_split p s.
Proof.
  induction s as [|c s IH]; simpl; [reflexivity|].
  destruct (p c); simpl; [now rewrite IH|].
  rewrite <- IH. destruct (pieces_of p s) as [|[w d] ws]; reflexivity.
Qed.

Lemma unsplit_pieces (s : string) : unsplit (pieces_of p s) = s.
Proof.
  induction s as [|c s IH]; simpl; [reflexivity|].
  destruct (p c); simpl; [now rewrite IH|].
  destruct (pieces_of p s) as [|[w d] ws]; simpl in *; now rewrite IH.
Qed.

End Split.

Lemma drop_while_head (f : ascii -> bool) (s : string) :
  drop_while f s = EmptyString \/
  exists d r, drop_while f s = String d r /\ f d = false.
Proof.
  induction s as [|c s IH]; simpl; [now left|].
  destruct (f c) eqn:E; [exact IH|]. right. now exists c, s.
Qed.

Lemma filter_split_drop (p : ascii -> bool) (s : string) :
  filter nonempty (re_split p (drop_while p s)) =
  filter nonempty (re_split p s).
Proof.
  induction s as [|c s IH]; simpl; [reflexivity|].
  destruct (p c) eqn:E; simpl; [exact IH|now rewrite E].
Qed.

(** A non-empty match-free [t] in front of a match, or at the end of the
    string, is a piece of its own. *)
Lemma filter_split_run (p : ascii -> bool) (t r : string) :
  free p t = true -> nonempty t = true ->
  (r = EmptyString \/ exists d r', r = String d r' /\ p d = true) ->
  filter nonempty (re_split p (t ++ r)) =
  t :: filter nonempty (re_split p r).
Proof.
  intros Ht Hn Hr. rewrite (re_split_prefix p t r Ht).
  destruct Hr as [->|(d & r' & -> & Hd)]; simpl.
  - now rewrite append_empty_r, Hn.
  - now rewrite Hd; simpl; rewrite append_empty_r, Hn.
Qed.

Lemma word_free (t : string) :
  all_chars is_word t = true -> free NONALPHA t = true.
Proof.
  unfold free, NONALPHA. induction t as [|c t IH]; simpl; [reflexivity|].
  intros H. apply andb_prop in H as [Hc Ht].
  now rewrite Hc, (IH Ht).
Qed.

(** The code's split, empty pieces dropped, is the sequence of maximal
    runs of word bytes. *)
Lemma split_word_runs (s : string) :
  filter nonempty (re_split NONALPHA s) = word_runs s.
Proof.
  funelim (word_runs s).
  - reflexivity.
  - rewrite <- H. clear H Heqcall.
    rewrite <- (take_drop_while is_word s') at 1.
    change (String c (take_while is_word s' ++ drop_while is_word s'))%string
      with (String c (take_while is_word s') ++ drop_while is_word s')%string.
    apply filter_split_run.
    + apply word_free. simpl. now rewrite Heq, take_while_all.
    + reflexivity.
    + destruct (drop_while_head is_word s') as [E|(d & r & E & Hd)];
        [now left|right].
      exists d, r. split; [exact E|]. unfold NONALPHA. now rewrite Hd.
  - rewrite <- H. clear H Heqcall.
    rewrite filter_split_drop. simpl.
    unfold NONALPHA at 1. now rewrite Heq.
Qed.

(** ** The lines *)

(** [readlines] loses nothing: the lines put end to end are the stream. *)
Lemma readlines_concat (s : string) :
  fold_right append EmptyString (readlines s) = s.
Proof.
  induction s as [|c s IH]; simpl; [reflexivity|].
  destruct (Ascii.eqb c LF); simpl; [now rewrite IH|].
  destruct (readlines s) as [|l ls]; simpl in *; now rewrite <- IH.
Qed.

(** ** The loops *)

Lemma emitted_cons (c : ascii) (rest : string) :
  emitted (String c rest) = Ok (format (lower c, length (String c rest))).
Proof. reflexivity. Qed.

Lemma body_spec (w : string) (out : stdout) :
  body w out = Ok (out ++ line_of w).
Proof.
  destruct w as [|c rest]; unfold body; simpl.
  - now rewrite app_nil_r.
  - reflexivity.
Qed.

Lemma for_w_spec (ws : list string) (out : stdout) :
  for_w ws out = Ok (out ++ flat_map line_of ws).
Proof.
  revert out. induction ws as [|w ws IH]; intros out; simpl.
  - now rewrite app_nil_r.
  - rewrite body_spec. simpl. now rewrite IH, app_assoc.
Qed.

Lemma for_input_spec (lines : list string) (out : stdout) :
  for_input lines out =
  Ok (out ++ flat_map (fun l => flat_map line_of (re_split NONALPHA l)) lines).
Proof.
  revert out. induction lines as [|l lines IH]; intros out; simpl.
  - now rewrite app_nil_r.
  - rewrite for_w_spec. simpl. now rewrite IH, app_assoc.
Qed.

Lemma mapper_line_spec (input : string) :
  mapper_line input = Ok (flat_map line_of (re_split NONALPHA input)).
Proof. unfold mapper_line. now rewrite for_w_spec. Qed.

(** Empty pieces print nothing. *)
Lemma flat_map_line_of_filter (ws : list string) :
  flat_map line_of ws = flat_map line_of (filter nonempty ws).
Proof.
  induction ws as [|w ws IH]; simpl; [reflexivity|].
  destruct w as [|c rest]; simpl; [exact IH|]. now rewrite IH.
Qed.

(** Non-empty pieces print one line each. *)
Lemma emits_filter (ws : list string) :
  Forall2 emits (filter nonempty ws) (flat_map line_of ws).
Proof.
  induction ws as [|w ws IH]; simpl; [constructor|].
  destruct w as [|c rest]; simpl; [exact IH|].
  constructor; [|exact IH]. now exists c, rest.
Qed.

(** ** The two readings of the run split agree on the tokens *)

Lemma word_runs_drop (s : string) :
  word_runs (drop_while NONALPHA s) = word_runs s.
Proof. now rewrite <- !split_word_runs, filter_split_drop. Qed.

Lemma split_on_runs_filter (s : string) :
  filter nonempty (split_on_runs s) = word_runs s.
Proof.
  funelim (split_on_runs s); simp word_runs; rewrite ?Heq; simpl.
  - reflexivity.
  - f_equal. destruct (drop_while is_word s') as [|d r] eqn:E.
    + now simp word_runs.
    + now rewrite (H d r), word_runs_drop.
  - exact H.
Qed.

Lemma filter_split_delims (p : ascii -> bool) (d s : string) :
  all_chars p d = true ->
  filter nonempty (re_split p (d ++ s)) = filter nonempty (re_split p s).
Proof.
  induction d as [|c d IH]; simpl; intros Hd; [reflexivity|].
  apply andb_prop in Hd as [Hc Hd]. rewrite Hc. simpl. now apply IH.
Qed.

Lemma substring_head (r : string) :
  all_chars NONALPHA (substring 0 1 r) = true ->
  r = EmptyString \/ exists d r', r = String d r' /\ NONALPHA d = true.
Proof.
  destruct r as [|d r']; [now left|]. simpl.
  destruct r'; simpl; rewrite andb_true_r; intros H; right; eauto.
Qed.

(** [word_runs] computes the maximal runs, and nothing else is one. *)
Lemma Runs_delims (d r : string) (ts : list string) :
  all_chars NONALPHA d = true -> Runs r ts -> Runs (d ++ r) ts.
Proof.
  intros Hd HR. destruct HR as [d' Hd'|d' t r ts Hd' Hn Ht Hr HR].
  - constructor. now rewrite all_chars_append, Hd, Hd'.
  - rewrite <- append_assoc. constructor; auto.
    now rewrite all_chars_append, Hd, Hd'.
Qed.

Lemma word_runs_Runs (s : string) : Runs s (word_runs s).
Proof.
  funelim (word_runs s).
  - now constructor.
  - clear Heqcall. rewrite <- (take_drop_while is_word s') at 1.
    apply (Runs_cons "" (String c (take_while is_word s'))); auto.
    + simpl. now rewrite Heq, take_while_all.
    + destruct (drop_while_head is_word s') as [->|(d & r & -> & Hd)];
        [reflexivity|].
      unfold NONALPHA. destruct r; simpl; now rewrite Hd.
  - clear Heqcall. rewrite <- (take_drop_while NONALPHA s') at 1.
    apply (Runs_delims (String c (take_while NONALPHA s'))); auto.
    simpl. unfold NONALPHA at 1. now rewrite Heq, take_while_all.
Qed.

Lemma Runs_unique (s : string) (ts : list string) :
  Runs s ts -> ts = word_runs s.
Proof.
  induction 1 as [d Hd|d t r ts Hd Hn Ht Hr HR IH];
    rewrite <- split_word_runs.
  - rewrite <- (append_empty_r d), (filter_split_delims _ _ _ Hd).
    reflexivity.
  - rewrite (filter_split_delims _ _ _ Hd).
    rewrite (filter_split_run NONALPHA t r (word_free t Ht) Hn
               (substring_head r Hr)).
    now rewrite split_word_runs, IH.
Qed.

(** ** Bytes *)

Lemma lower_word_key (c : ascii) :
  is_word c = true -> is_key (lower c) = true.
Proof.
  destruct c as [[] [] [] [] [] [] [] []]; vm_compute; intros H;
    first [reflexivity | discriminate H].
Qed.

Lemma key_props (k : ascii) :
  is_key k = true ->
  is_upper k = false /\ lower k = k /\ negb (Ascii.eqb k LF) = true.
Proof.
  destruct k as [[] [] [] [] [] [] [] []]; vm_compute; intros H;
    first [discriminate H | repeat split].
Qed.

Lemma digit_not_lf (c : ascii) :
  is_digit c = true -> negb (Ascii.eqb c LF) = true.
Proof.
  destruct c as [[] [] [] [] [] [] [] []]; vm_compute; intros H;
    first [reflexivity | discriminate H].
Qed.

Lemma all_chars_weaken (f g : ascii -> bool) (s : string) :
  (forall c, f c = true -> g c = true) ->
  all_chars f s = true -> all_chars g s = true.
Proof.
  intros Hfg. induction s as [|c s IH]; simpl; [reflexivity|].
  intros H. apply andb_prop in H as [Hc Hs].
  now rewrite (Hfg c Hc), (IH Hs).
Qed.

Lemma str_digits (n : nat) : all_chars is_digit (str n) = true.
Proof.
  unfold str. induction (Nat.to_uint n) as [|u IH|u IH|u IH|u IH|u IH
                                            |u IH|u IH|u IH|u IH|u IH];
    simpl; rewrite ?IH; reflexivity.
Qed.

Lemma free_word (w : string) :
  free NONALPHA w = true -> all_chars is_word w = true.
Proof.
  apply all_chars_weaken. intros c. unfold NONALPHA.
  now rewrite negb_involutive.
Qed.

(** ** Output lines *)

Lemma proper_well_formed (line : string) :
  proper_record line -> well_formed line.
Proof.
  intros (k & n & -> & _ & Hk).
  destruct (key_props k Hk) as (Hu & Hl & Hlf).
  exists k, n. repeat split; auto.
  unfold format. simpl. rewrite Hlf. simpl.
  apply (all_chars_weaken is_digit); [exact digit_not_lf|apply str_digits].
Qed.

Lemma line_of_proper (w : string) :
  free NONALPHA w = true -> Forall proper_record (line_of w).
Proof.
  intros Hw. apply free_word in Hw.
  destruct w as [|c rest]; simpl; [constructor|].
  apply andb_prop in Hw as [Hc _].
  repeat constructor. exists (lower c), (S (length rest)).
  repeat split; [lia|now apply lower_word_key].
Qed.

Lemma split_lines_proper (l : string) :
  Forall proper_record (flat_map line_of (re_split NONALPHA l)).
Proof.
  apply Forall_flat_map.
  eapply Forall_impl; [|apply re_split_pieces_free].
  intros w. apply line_of_proper.
Qed.

Lemma mapper_spec (stdin : string) :
  mapper stdin =
  Ok (render (flat_map (fun l => flat_map line_of (re_split NONALPHA l))
                       (readlines stdin))).
Proof. unfold mapper. now rewrite for_input_spec. Qed.

Lemma Forall2_flat_map {A B C : Type} (R : B -> C -> Prop)
      (f : A -> list B) (g : A -> list C) (l : list A) :
  (forall x, Forall2 R (f x) (g x)) ->
  Forall2 R (flat_map f l) (flat_map g l).
Proof.
  intros H. induction l as [|x l IH]; simpl; [constructor|].
  apply Forall2_app; auto.
Qed.

Lemma filter_split_all (p : ascii -> bool) (s : string) :
  all_chars p s = true -> filter nonempty (re_split p s) = [].
Proof.
  induction s as [|c s IH]; simpl; [reflexivity|].
  intros H. apply andb_prop in H as [Hc Hs]. rewrite Hc. simpl. auto.
Qed.

(** Every piece is a slice of the string, bytes unchanged. *)
Lemma re_split_hd_prefix (p : ascii -> bool) (s : string) :
  exists post, s = (hd EmptyString (re_split p s) ++ post)%string.
Proof.
  induction s as [|c s [post IH]]; simpl; [now exists EmptyString|].
  destruct (p c); simpl; [now exists (String c s)|].
  pose proof (re_split_nonnil p s) as Hn.
  destruct (re_split p s) as [|w ws]; [contradiction|].
  simpl in *. exists post. now rewrite <- IH.
Qed.

Lemma re_split_substring (p : ascii -> bool) (s w : string) :
  In w (re_split p s) -> exists pre post, s = (pre ++ w ++ post)%string.
Proof.
  induction s as [|c s IH]; simpl.
  - intros [<-|[]]. now exists EmptyString, EmptyString.
  - destruct (p c).
    + intros [<-|Hin]; [now exists EmptyString, (String c s)|].
      destruct (IH Hin) as (pre & post & E).
      exists (String c pre), post. simpl. now rewrite <- E.
    + pose proof (re_split_nonnil p s) as Hn.
      pose proof (re_split_hd_prefix p s) as [post Hp].
      destruct (re_split p s) as [|w0 ws]; [contradiction|].
      intros [<-|Hin].
      * exists EmptyString, post. simpl in *. now rewrite <- Hp.
      * destruct (IH (or_intror Hin)) as (pre & post' & E).
        exists (String c pre), post'. simpl. now rewrite <- E.
Qed.

Lemma lower_str_length (s : string) : length (lower_str s) = length s.
Proof. induction s as [|c s IH]; simpl; congruence. Qed.

(** ** Tokens and records *)


(** C2. The number of records emitted for an input line is the number of
    non-empty maximal runs of bytes from [[A-Za-z0-9_]] in the line; the
    records come in the left-to-right order of the runs; and the lines are
    processed in the order in which [readlines] delivers them: standard
    output is the concatenation, in that order, of what each line emits on
    its own. *)
Theorem C2_count_and_order (input stdin : string) :
  (exists out,
      mapper_line input = Ok out /\
      List.length out = List.length (word_runs input) /\
      Forall2 emits (word_runs input) out) /\
  (exists outs,
      Forall2 (fun l o => mapper_line l = Ok o) (readlines stdin) outs /\
      for_input (readlines stdin) [] = Ok (List.concat outs)).
Proof.
  split.
  - exists (flat_map line_of (re_split NONALPHA input)).
    pose proof (emits_filter (re_split NONALPHA input)) as HF.
    rewrite split_word_runs in HF.
    split; [apply mapper_line_spec|]. split; [|exact HF].
    symmetry. eapply Forall2_length. exact HF.
  - exists (map (fun l => flat_map line_of (re_split NONALPHA l))
                (readlines stdin)).
    split.
    + induction (readlines stdin) as [|l ls IH]; simpl; constructor;
        [apply mapper_line_spec|exact IH].
    + rewrite for_input_spec. simpl. now rewrite flat_map_concat_map.
Qed.

(** C3. Splitting a line at every single non-word byte and then discarding
    the zero-length pieces (the code) gives exactly the token sequence of
    splitting the line at every maximal run of one or more non-word bytes
    with the runs discarded (the specification): the maximal runs of word
    bytes, in order.  A split at the runs that keeps the empty piece in
    front of a leading run and behind a trailing run gives the same tokens
    once step 2 of the specification has dropped the zero-length ones. *)
Theorem C3_single_split_refines_run_split (line : string) :
  filter nonempty (re_split NONALPHA line) = word_runs line /\
  filter nonempty (re_split NONALPHA line)
    = filter nonempty (split_on_runs line).
Proof.
  split; [apply split_word_runs|].
  now rewrite split_word_runs, split_on_runs_filter.
Qed.

(** C4, as amended.  Every output line is key, one TAB, value: the key
    exactly one byte from the lowercase letters, the digits and the
    underscore (never an uppercase letter; it is its own lowercase form),
    the value the decimal representation of a natural number; a line holds
    no line feed, so the stream has one line per record; and the lines are
    exactly the records of the tokens of the input lines, in order, with
    nothing in front of them or behind them. *)
Theorem C4_output_format (stdin : string) :
  exists out,
    mapper stdin = Ok (render out) /\
    Forall2 emits (flat_map word_runs (readlines stdin)) out /\
    Forall well_formed out.
Proof.
  exists (flat_map (fun l => flat_map line_of (re_split NONALPHA l))
                   (readlines stdin)).
  split; [apply mapper_spec|]. split.
  - apply Forall2_flat_map. intros l. rewrite <- split_word_runs.
    apply emits_filter.
  - apply Forall_flat_map, Forall_forall. intros l _.
    eapply Forall_impl; [exact proper_well_formed|apply split_lines_proper].
Qed.

(** C4, as worded, fails: on the stream [22 _x] the script prints the two
    lines [2<TAB>2] and [_<TAB>2], and the key of neither is a lowercase
    letter. *)
Lemma C4_counterexample :
  mapper "22 _x" =
    Ok (render [String "2" (String TAB "2"); String "_" (String TAB "2")]) /\
  ~ letter_keyed (String "2" (String TAB "2")) /\
  ~ letter_keyed (String "_" (String TAB "2")) /\
  ~ Forall letter_keyed
      [String "2" (String TAB "2"); String "_" (String TAB "2")].
Proof.
  assert (N2 : ~ letter_keyed (String "2" (String TAB "2"))).
  { intros (k & n & E & Hk). injection E as <- _. discriminate Hk. }
  assert (N_ : ~ letter_keyed (String "_" (String TAB "2"))).
  { intros (k & n & E & Hk). injection E as <- _. discriminate Hk. }
  repeat split; auto.
  intros H. inversion H; subst. contradiction.
Qed.

(** C5. A line made of delimiter bytes only (the empty line included)
    emits no record and raises nothing, whatever was printed before it;
    a zero-length token is passed over: the loop body leaves standard
    output as it was and raises nothing. *)
Theorem C5_delimiter_lines_emit_nothing
        (line : string) (Hline : all_chars NONALPHA line = true) :
  mapper_line line = Ok [] /\
  (forall out, for_w (re_split NONALPHA line) out = Ok out) /\
  (forall out, body EmptyString out = Ok out).
Proof.
  assert (E : flat_map line_of (re_split NONALPHA line) = []).
  { now rewrite flat_map_line_of_filter, (filter_split_all _ _ Hline). }
  split; [|split].
  - now rewrite mapper_line_spec, E.
  - intros out. now rewrite for_w_spec, E, app_nil_r.
  - reflexivity.
Qed.

Lemma C5_witness :
  mapper_line "" = Ok [] /\ mapper_line " ,;  " = Ok [].
Proof.
  split.
  - apply (C5_delimiter_lines_emit_nothing ""). reflexivity.
  - apply (C5_delimiter_lines_emit_nothing " ,;  "). reflexivity.
Defined.

(** C6. Splitting is idempotent on tokens: a non-empty token [T] of the
    split of a line, split again by the same rule, is the one-element
    sequence [T]. *)
Theorem C6_split_idempotent
        (line T : string)
        (HT : In T (filter nonempty (re_split NONALPHA line))) :
  re_split NONALPHA T = [T].
Proof.
  apply filter_In in HT as [HT _].
  apply re_split_free.
  pose proof (re_split_pieces_free NONALPHA line) as HF.
  rewrite Forall_forall in HF. now apply HF.
Qed.

Lemma C6_witness : re_split NONALPHA "World" = ["World"].
Proof.
  apply (C6_split_idempotent "Hello, World!" "World").
  simpl. auto.
Defined.

(** C7. The line [Hello, World!] emits the records (h, 5) and (w, 5), in
    that order and nothing else; the line [a1_b 22] emits (a, 4) and
    (2, 2). *)
Theorem C7_scenarios :
  mapper_line "Hello, World!" =
    Ok [String "h" (String TAB "5"); String "w" (String TAB "5")] /\
  mapper_line "a1_b 22" =
    Ok [String "a" (String TAB "4"); String "2" (String TAB "2")] /\
  mapper "Hello, World!" =
    Ok (String "h" (String TAB (String "5" (String LF
       (String "w" (String TAB (String "5" (String LF ""))))))))  /\
  mapper "a1_b 22" =
    Ok (String "a" (String TAB (String "4" (String LF
       (String "2" (String TAB (String "2" (String LF "")))))))).
Proof. repeat split. Qed.

(** C8. Case normalization touches the key only: the record of a non-empty
    token [T] of a line has the lowercase form of the first byte of [T] as
    its key and the length of [T] as its value, where [T] is a slice of the
    line with its bytes as they were read; lowercasing [T] would not change
    that length; and the line printed depends on the bytes after the first
    through their number only. *)
Theorem C8_only_key_lowercased
        (line T : string)
        (HT : In T (filter nonempty (re_split NONALPHA line))) :
  exists c rest,
    T = String c rest /\
    emitted T = Ok (String (lower c) (String TAB (str (length T)))) /\
    length (lower_str T) = length T /\
    (exists pre post, line = (pre ++ T ++ post)%string) /\
    (forall rest', length rest' = length rest ->
                   emitted (String c rest') = emitted T).
Proof.
  apply filter_In in HT as [HT Hn].
  destruct T as [|c rest]; [discriminate Hn|].
  exists c, rest. repeat split.
  - apply lower_str_length.
  - exact (re_split_substring _ _ _ HT).
  - intros rest' Hlen. rewrite !emitted_cons. simpl. now rewrite Hlen.
Qed.

Lemma C8_witness :
  exists c rest,
    "World" = String c rest /\
    emitted "World" =
      Ok (String (lower c) (String TAB (str (length "World")))) /\
    length (lower_str "World") = length "World" /\
    (exists pre post, "Hello, World!" = (pre ++ "World" ++ post)%string) /\
    (forall rest', length rest' = length rest ->
                   emitted (String c rest') = emitted "World").
Proof.
  apply (C8_only_key_lowercased "Hello, World!" "World").
  simpl. auto.
Defined.

(** C9. Every record the program emits has a value of at least 1 and a key
    that is one byte from the lowercase letters, the digits and the
    underscore. *)
Theorem C9_records_proper (stdin : string) :
  exists out,
    for_input (readlines stdin) [] = Ok out /\
    mapper stdin = Ok (render out) /\
    Forall proper_record out.
Proof.
  exists (flat_map (fun l => flat_map line_of (re_split NONALPHA l))
                   (readlines stdin)).
  split; [apply for_input_spec|]. split; [apply mapper_spec|].
  apply Forall_flat_map, Forall_forall. intros l _.
  apply split_lines_proper.
Qed.

(** ** The script on whole streams *)

Lemma re_split_app (p : ascii -> bool) (a b : string) (d : ascii) :
  p d = true ->
  re_split p (a ++ String d b) = re_split p a ++ re_split p b.
Proof.
  intros Hd. induction a as [|c a IH]; simpl.
  - now rewrite Hd.
  - rewrite IH. destruct (p c); [reflexivity|].
    pose proof (re_split_nonnil p a) as Hn.
    destruct (re_split p a); [contradiction|reflexivity].
Qed.

Lemma readlines_nil (s : string) : readlines s = [] -> s = EmptyString.
Proof.
  destruct s as [|c s]; simpl; [reflexivity|].
  destruct (Ascii.eqb c LF); [discriminate|].
  destruct (readlines s); discriminate.
Qed.

Lemma filter_hd_tl (ws ws' : list string) :
  ws <> [] -> ws' <> [] ->
  hd EmptyString ws = hd EmptyString ws' ->
  filter nonempty (tl ws) = filter nonempty (tl ws') ->
  filter nonempty ws = filter nonempty ws'.
Proof.
  destruct ws as [|w ws], ws' as [|w' ws']; try contradiction.
  simpl. intros _ _ -> ->. reflexivity.
Qed.

(** Cutting the stream into lines first changes the pieces by empty ones
    only: the line feed is a delimiter. *)
Lemma lines_split_inv (p : ascii -> bool) (s : string) :
  p LF = true -> s <> EmptyString ->
  flat_map (re_split p) (readlines s) <> [] /\
  hd EmptyString (flat_map (re_split p) (readlines s))
    = hd EmptyString (re_split p s) /\
  filter nonempty (tl (flat_map (re_split p) (readlines s)))
    = filter nonempty (tl (re_split p s)).
Proof.
  intros HLF. induction s as [|c s IH]; [contradiction|]. intros _.
  assert (Hall : filter nonempty (flat_map (re_split p) (readlines s))
                 = filter nonempty (re_split p s)).
  { destruct s as [|c' s']; [reflexivity|].
    destruct IH as (Hn & Hh & Ht); [discriminate|].
    apply filter_hd_tl; auto using re_split_nonnil. }
  simpl. destruct (Ascii.eqb c LF) eqn:Ec.
  - apply Ascii.eqb_eq in Ec. subst c. rewrite HLF. simpl. rewrite HLF.
    simpl. repeat split; [discriminate|exact Hall].
  - destruct (readlines s) as [|l ls] eqn:El.
    + apply readlines_nil in El. subst s. simpl.
      rewrite app_nil_r. destruct (p c); repeat split; discriminate.
    + assert (Hs : s <> EmptyString) by (intros ->; discriminate El).
      destruct (IH Hs) as (Hn & Hh & Ht). simpl in *.
      destruct (p c); simpl.
      * repeat split; [discriminate|exact Hall].
      * pose proof (re_split_nonnil p l) as Hl.
        pose proof (re_split_nonnil p s) as Hs'.
        destruct (re_split p l) as [|w ws]; [contradiction|].
        destruct (re_split p s) as [|w' ws']; [contradiction|].
        simpl in *. subst w'. repeat split; [discriminate|exact Ht].
Qed.

Lemma lines_split_filter (p : ascii -> bool) (s : string) :
  p LF = true ->
  filter nonempty (flat_map (re_split p) (readlines s))
    = filter nonempty (re_split p s).
Proof.
  intros HLF. destruct s as [|c s]; [reflexivity|].
  destruct (lines_split_inv p (String c s) HLF) as (Hn & Hh & Ht);
    [discriminate|].
  apply filter_hd_tl; auto using re_split_nonnil.
Qed.

Lemma flat_map_flat_map {A B C : Type} (f : A -> list B) (g : B -> list C)
      (l : list A) :
  flat_map g (flat_map f l) = flat_map (fun x => flat_map g (f x)) l.
Proof.
  induction l as [|x l IH]; simpl; [reflexivity|].
  now rewrite flat_map_app, IH.
Qed.

(** The lines printed for a stream are those of the stream taken as one
    line. *)
Lemma lines_as_one (s : string) :
  flat_map (fun l => flat_map line_of (re_split NONALPHA l)) (readlines s)
    = flat_map line_of (re_split NONALPHA s).
Proof.
  rewrite <- flat_map_flat_map.
  rewrite flat_map_line_of_filter, (lines_split_filter NONALPHA s eq_refl).
  now rewrite <- flat_map_line_of_filter.
Qed.

Lemma mapper_as_one (s : string) :
  mapper s = Ok (render (flat_map line_of (re_split NONALPHA s))).
Proof. now rewrite mapper_spec, lines_as_one. Qed.

Lemma render_app (out out' : stdout) :
  render (out ++ out') = (render out ++ render out')%string.
Proof.
  induction out as [|l out IH]; simpl; [reflexivity|].
  now rewrite IH, append_assoc.
Qed.

Lemma line_of_records (ws : list string) :
  flat_map line_of ws = map format (records ws).
Proof.
  unfold records. induction ws as [|w ws IH]; simpl; [reflexivity|].
  rewrite map_app, <- IH. unfold line_of. now destruct (record_of w).
Qed.

Lemma filter_flat_map {A B : Type} (f : B -> bool) (g : A -> list B)
      (l : list A) :
  flat_map (fun x => filter f (g x)) l = filter f (flat_map g l).
Proof.
  induction l as [|x l IH]; simpl; [reflexivity|].
  now rewrite filter_app, IH.
Qed.

(** ** Counting *)

Lemma count_matches_ext (f g : ascii -> bool) (s : string) :
  (forall c, f c = g c) -> count_matches f s = count_matches g s.
Proof.
  intros H. induction s as [|c s IH]; simpl; [reflexivity|].
  now rewrite H, IH.
Qed.

Lemma count_partition (p : ascii -> bool) (s : string) :
  count_matches (fun c => negb (p c)) s + count_matches p s = length s.
Proof.
  induction s as [|c s IH]; simpl; [reflexivity|].
  destruct (p c); simpl; lia.
Qed.

Lemma split_lengths (p : ascii -> bool) (s : string) :
  list_sum (map length (re_split p s))
    = count_matches (fun c => negb (p c)) s.
Proof.
  induction s as [|c s IH]; simpl; [reflexivity|].
  destruct (p c); simpl; [exact IH|].
  pose proof (re_split_nonnil p s) as Hn.
  destruct (re_split p s) as [|w ws]; [contradiction|].
  simpl in *. now rewrite <- IH.
Qed.

Lemma records_sum (ws : list string) :
  list_sum (map snd (records ws)) = list_sum (map length ws).
Proof.
  unfold records. induction ws as [|w ws IH]; [reflexivity|].
  destruct w; simpl in *; lia.
Qed.

Lemma records_length (ws : list string) :
  List.length (records ws) <= List.length ws /\
  List.length (records ws) <= list_sum (map snd (records ws)).
Proof.
  unfold records. induction ws as [|w ws [IH1 IH2]]; [simpl; lia|].
  destruct w; simpl in *; lia.
Qed.

(** ** Case *)

Lemma nonalpha_lower (c : ascii) : NONALPHA (lower c) = NONALPHA c.
Proof. destruct c as [[] [] [] [] [] [] [] []]; reflexivity. Qed.

Lemma lower_idempotent (c : ascii) : lower (lower c) = lower c.
Proof. destruct c as [[] [] [] [] [] [] [] []]; reflexivity. Qed.

Lemma re_split_lower (s : string) :
  re_split NONALPHA (lower_str s) = map lower_str (re_split NONALPHA s).
Proof.
  induction s as [|c s IH]; simpl; [reflexivity|].
  rewrite nonalpha_lower, IH. destruct (NONALPHA c); [reflexivity|].
  now destruct (re_split NONALPHA s).
Qed.

Lemma line_of_lower (w : string) : line_of (lower_str w) = line_of w.
Proof.
  destruct w as [|c rest]; [reflexivity|].
  unfold line_of. simpl. now rewrite lower_idempotent, lower_str_length.
Qed.

(** ** Framing *)

Lemma str_inj (n m : nat) : str n = str m -> n = m.
Proof.
  unfold str. intros E. apply Unsigned.to_uint_inj.
  apply (f_equal NilEmpty.uint_of_string) in E.
  rewrite !NilEmpty.usu in E. congruence.
Qed.

Lemma format_inj (r r' : record) : format r = format r' -> r = r'.
Proof.
  destruct r as [k n], r' as [k' n']. unfold format. simpl.
  intros E. injection E as -> E. now rewrite (str_inj _ _ E).
Qed.

Lemma format_not_lf (r : record) :
  is_key (fst r) = true -> all_chars not_lf (format r) = true.
Proof.
  destruct r as [k n]. simpl. intros Hk.
  destruct (key_props k Hk) as (_ & _ & Hlf).
  unfold not_lf at 1. rewrite Hlf. simpl.
  apply (all_chars_weaken is_digit); [exact digit_not_lf|apply str_digits].
Qed.

(** A line without line feed ends at the first line feed of the stream. *)
Lemma line_feed_cut (a b x y : string) :
  all_chars not_lf a = true -> all_chars not_lf b = true ->
  (a ++ String LF x)%string = (b ++ String LF y)%string ->
  a = b /\ x = y.
Proof.
  revert b. induction a as [|c a IH]; intros [|c' b]; simpl; intros Ha Hb E.
  - injection E as ->. now split.
  - injection E as <- _. discriminate Hb.
  - injection E as -> _. discriminate Ha.
  - injection E as -> E.
    apply andb_prop in Ha as [_ Ha]. apply andb_prop in Hb as [_ Hb].
    destruct (IH b Ha Hb E) as [-> ->]. now split.
Qed.

Lemma render_inj (out out' : stdout) :
  Forall (fun l => all_chars not_lf l = true) out ->
  Forall (fun l => all_chars not_lf l = true) out' ->
  render out = render out' -> out = out'.
Proof.
  intros H. revert out'.
  induction H as [|l out Hl _ IH]; intros out' H' E;
    destruct H' as [|l' out' Hl' H']; simpl in E.
  - reflexivity.
  - destruct l'; discriminate E.
  - destruct l; discriminate E.
  - destruct (line_feed_cut _ _ _ _ Hl Hl' E) as [-> E'].
    now rewrite (IH out' H' E').
Qed.

Lemma map_format_inj (rs rs' : list record) :
  map format rs = map format rs' -> rs = rs'.
Proof.
  revert rs'. induction rs as [|r rs IH]; intros [|r' rs'] E;
    try discriminate E; [reflexivity|].
  pose proof (f_equal (hd EmptyString) E) as Er.
  pose proof (f_equal (@tl string) E) as Et. simpl in Er, Et.
  now rewrite (format_inj _ _ Er), (IH rs' Et).
Qed.

(** ** Further properties of the script *)

(** X1. The loop over the lines is transparent: the line feed is itself a
    delimiter, so the script prints for a stream exactly what its inner
    loop prints for the whole stream taken as one line, and the tokens of
    the lines, put together, are the tokens of the stream. *)
Theorem X1_lines_do_not_matter (stdin : string) :
  for_input (readlines stdin) [] = mapper_line stdin /\
  flat_map word_runs (readlines stdin) = word_runs stdin.
Proof.
  split.
  - now rewrite for_input_spec, mapper_line_spec, lines_as_one.
  - rewrite <- split_word_runs, <- (lines_split_filter NONALPHA stdin eq_refl).
    rewrite <- filter_flat_map. apply flat_map_ext.
    intros l. symmetry. apply split_word_runs.
Qed.

(** X2. A stream may be cut at any delimiter byte (a line feed, a blank):
    neither part raises, and the output for the whole is the output for
    the part before the byte followed by the output for the part after
    it. *)
Theorem X2_cut_at_delimiter
        (a b : string) (d : ascii) (Hd : NONALPHA d = true) :
  exists o1 o2,
    mapper a = Ok o1 /\
    mapper b = Ok o2 /\
    mapper (a ++ String d b) = Ok (o1 ++ o2)%string.
Proof.
  exists (render (flat_map line_of (re_split NONALPHA a))),
         (render (flat_map line_of (re_split NONALPHA b))).
  rewrite !mapper_as_one. repeat split.
  now rewrite (re_split_app NONALPHA a b d Hd), flat_map_app, render_app.
Qed.

Lemma X2_witness :
  exists o1 o2,
    mapper "Go Go" = Ok o1 /\
    mapper "Stop" = Ok o2 /\
    mapper ("Go Go" ++ String LF "Stop") = Ok (o1 ++ o2)%string.
Proof. apply (X2_cut_at_delimiter "Go Go" "Stop" LF). reflexivity. Defined.

(** X3. The values add up to the number of word bytes read: the script
    prints the lines of a list of records whose values sum to the number
    of bytes of the stream in [[A-Za-z0-9_]]; there are at most that many
    records, and at most one more than there are delimiter bytes. *)
Theorem X3_values_count_word_bytes (stdin : string) :
  exists rs : list record,
    for_input (readlines stdin) [] = Ok (map format rs) /\
    list_sum (map snd rs) = count_matches is_word stdin /\
    List.length rs <= count_matches is_word stdin /\
    List.length rs <= S (count_matches NONALPHA stdin).
Proof.
  exists (records (re_split NONALPHA stdin)).
  destruct (records_length (re_split NONALPHA stdin)) as [Hl Hs].
  assert (E : list_sum (map snd (records (re_split NONALPHA stdin)))
              = count_matches is_word stdin).
  { rewrite records_sum, split_lengths. apply count_matches_ext.
    intros c. unfold NONALPHA. apply negb_involutive. }
  repeat split.
  - now rewrite for_input_spec, lines_as_one, line_of_records.
  - exact E.
  - now rewrite <- E.
  - now rewrite <- re_split_length.
Qed.

(** X4. The output does not depend on the case of the input: lowercasing
    the whole stream first gives the same output. *)
Theorem X4_case_insensitive (stdin : string) :
  mapper (lower_str stdin) = mapper stdin.
Proof.
  rewrite !mapper_as_one, re_split_lower. do 2 f_equal.
  induction (re_split NONALPHA stdin) as [|w ws IH]; simpl; [reflexivity|].
  now rewrite line_of_lower, IH.
Qed.

(** X5. The bytes written determine the records: two lists of records with
    keys from the lowercased word class whose lines make the same stream
    are the same list (a key is never a line feed, a value is digits only,
    and [str] is injective). *)
Theorem X5_stream_determines_records
        (rs rs' : list record)
        (Hrs : Forall (fun r => is_key (fst r) = true) rs)
        (Hrs' : Forall (fun r => is_key (fst r) = true) rs')
        (E : render (map format rs) = render (map format rs')) :
  rs = rs'.
Proof.
  apply render_inj in E.
  - exact (map_format_inj rs rs' E).
  - apply Forall_map. eapply Forall_impl; [|exact Hrs].
    exact format_not_lf.
  - apply Forall_map. eapply Forall_impl; [|exact Hrs'].
    exact format_not_lf.
Qed.

Lemma X5_witness : [("h"%char, 5); ("w"%char, 5)] = [("h"%char, 5); ("w"%char, 5)].
Proof.
  apply X5_stream_determines_records;
    [repeat constructor | repeat constructor | reflexivity].
Defined.

(** X6. [readlines] loses nothing and cuts after line feeds only: the lines
    put end to end are the stream; a line is a run of bytes without line
    feed followed by one line feed, or such a run, not empty, with none;
    and every line but the last ends in a line feed. *)
Theorem X6_readlines_shape (stdin : string) :
  fold_right append EmptyString (readlines stdin) = stdin /\
  Forall (fun l => exists a,
              all_chars not_lf a = true /\
              (l = (a ++ String LF EmptyString)%string \/
               (l = a /\ a <> EmptyString)))
         (readlines stdin) /\
  Forall (fun l => exists a, l = (a ++ String LF EmptyString)%string)
         (removelast (readlines stdin)).
Proof.
  split; [apply readlines_concat|]. split.
  - induction stdin as [|c s IH]; simpl; [constructor|].
    destruct (Ascii.eqb c LF) eqn:Ec.
    + apply Ascii.eqb_eq in Ec. subst c. constructor; [|exact IH].
      exists EmptyString. split; [reflexivity|now left].
    + destruct (readlines s) as [|l ls].
      * repeat constructor. exists (String c EmptyString). split.
        -- simpl. unfold not_lf. now rewrite Ec.
        -- right. split; [reflexivity|discriminate].
      * inversion IH as [|? ? (a & Ha & Hl) Hls]; subst.
        constructor; [|exact Hls].
        exists (String c a). split.
        -- simpl. unfold not_lf at 1. now rewrite Ec, Ha.
        -- destruct Hl as [->|[-> _]]; [now left|].
           right. split; [reflexivity|discriminate].
  - induction stdin as [|c s IH]; simpl; [constructor|].
    destruct (Ascii.eqb c LF) eqn:Ec.
    + apply Ascii.eqb_eq in Ec. subst c.
      destruct (readlines s) as [|l ls]; [constructor|].
      constructor; [now exists EmptyString|exact IH].
    + destruct (readlines s) as [|l ls]; [constructor|].
      destruct ls as [|l' ls]; [constructor|].
      inversion IH as [|? ? (a & ->) Hls]; subst.
      constructor; [now exists (String c a)|exact Hls].
Qed.

(** X7. [NONALPHA.split] keeps every word byte and drops every delimiter
    byte: it returns one piece more than the line has delimiter bytes, no
    piece contains a delimiter byte, and the lengths of the pieces and the
    number of delimiter bytes add up to the length of the line. *)
Theorem X7_split_accounts_for_every_byte (line : string) :
  List.length (re_split NONALPHA line) = S (count_matches NONALPHA line) /\
  Forall (fun w => all_chars is_word w = true) (re_split NONALPHA line) /\
  list_sum (map length (re_split NONALPHA line))
    + count_matches NONALPHA line = length line.
Proof.
  split; [apply re_split_length|]. split.
  - eapply Forall_impl; [|apply re_split_pieces_free]. exact free_word.
  - rewrite split_lengths. apply count_partition.
Qed.

(** X8. A line that ends in a delimiter byte (every line that ends in a
    line feed) has an empty last piece; on the empty piece [w[0]] raises
    [IndexError], and the length guard keeps the loop from evaluating it:
    the line prints what it prints without its last byte. *)
Theorem X8_trailing_delimiter
        (a : string) (d : ascii) (Hd : NONALPHA d = true) :
  re_split NONALPHA (a ++ String d EmptyString)
    = re_split NONALPHA a ++ [EmptyString] /\
  emitted EmptyString = Raise IndexError /\
  mapper_line (a ++ String d EmptyString) = mapper_line a.
Proof.
  pose proof (re_split_app NONALPHA a EmptyString d Hd) as E.
  split; [exact E|]. split; [reflexivity|].
  rewrite !mapper_line_spec, E, flat_map_app. simpl.
  now rewrite app_nil_r.
Qed.

Lemma X8_witness :
  mapper_line ("Stop" ++ String LF EmptyString) = mapper_line "Stop".
Proof. apply (X8_trailing_delimiter "Stop" LF). reflexivity. Defined.
